(** * Portfolio front end: theme store, scroll tracker and studio form

    A shallow embedding of the stateful logic of [src/App.jsx]:
    the [useTheme] and [useScrollDirection] hooks, the theme toggle of
    [Navbar], and [Studio.login] / [Studio.create].

    Conventions.
    - A JavaScript string is a [string]; every [ascii] stands for one code
      unit in the range 0..255.
    - [localStorage] is a finite map from keys to strings: [getItem k] is the
      lookup [ls !! k] ([None] is JavaScript's [null]) and [setItem k v] is
      the insertion [<[k:=v]> ls].
    - A React state cell is a record field; a setter followed by the
      re-render and the effects it triggers is one transition of the record.
      [Phases] splits these transitions into the call, the render and the
      effect, and the transitions are shown to be their composition. *)

From Stdlib Require Import QArith Ascii.
From stdpp Require Import gmap strings list fin_maps.

(** ** JavaScript values used by the page *)

Module JS.

(** Truthiness of a string: only the empty string is falsy. *)
Definition truthy (s : string) : bool := negb (String.eqb s "").

(** Truthiness of a value that is a string, or [null] / [undefined]
    ([None]): the result of [getItem], or the [token] state cell. *)
Definition truthy_item (o : option string) : bool :=
  match o with
  | Some s => truthy s
  | None => false
  end.

(** Conversion to a string of a value that is a string or [undefined],
    as done by [setItem] and by template literals. *)
Definition to_string (v : option string) : string :=
  match v with
  | Some s => s
  | None => "undefined"
  end.

End JS.

(** ** The theme store: [useTheme] and the toggle button of [Navbar] *)

Module Theme.

(** The part of the browser the hook touches: [storage] is [localStorage],
    [darkClass] tells whether [document.documentElement.classList] holds
    ['dark'], and [theme] is the React state cell. *)
Record State := mkState {
  theme : string;
  storage : gmap string string;
  darkClass : bool
}.

(** The lazy initializer passed to [useState]; [prefersDark] is
    [window.matchMedia('(prefers-color-scheme: dark)').matches]. *)
Definition useTheme_init (ls : gmap string string) (prefersDark : bool) : string :=
  let stored := ls !! "theme" in
  match stored with
  | Some s =>
      if JS.truthy s then s
      else if prefersDark then "dark" else "light"
  | None => if prefersDark then "dark" else "light"
  end.

(** The body of the effect with dependency list [[theme]]. *)
Definition useTheme_effect (st : State) : State :=
  {| theme := theme st;
     storage := <["theme" := theme st]> (storage st);
     darkClass := String.eqb (theme st) "dark" |}.

(** First render followed by the mount effect. *)
Definition useTheme_mount (ls : gmap string string) (prefersDark cls : bool) : State :=
  useTheme_effect
    {| theme := useTheme_init ls prefersDark; storage := ls; darkClass := cls |}.

(** [setTheme next]: React keeps the state and skips the effect when the
    new value is identical to the current one; otherwise the component
    re-renders with [next] and the effect runs. *)
Definition setTheme (next : string) (st : State) : State :=
  if String.eqb next (theme st) then st
  else useTheme_effect
         {| theme := next; storage := storage st; darkClass := darkClass st |}.

(** The click handler of the toggle button:
    [setTheme(theme === 'dark' ? 'light' : 'dark')]. *)
Definition toggle (st : State) : State :=
  setTheme (if String.eqb (theme st) "dark" then "light" else "dark") st.

(** States the hook can be in: mounted, then any number of [setTheme]. *)
Inductive reachable : State → Prop :=
  | reach_mount ls prefersDark cls :
      reachable (useTheme_mount ls prefersDark cls)
  | reach_set next st :
      reachable st → reachable (setTheme next st).

(** The persisted entry mirrors the state cell, and so does the class. *)
Definition consistent (st : State) : Prop :=
  storage st !! "theme" = Some (theme st) ∧
  darkClass st = String.eqb (theme st) "dark".

(** The colour table [THEME_COLORS], by its own property names. *)
Record Colors := mkColors {
  bg : string;
  text : string;
  card : string
}.

Definition THEME_COLORS (k : string) : option Colors :=
  if String.eqb k "light" then
    Some {| bg := "#FFFFFF"; text := "#0F172A"; card := "#F8FAFC" |}
  else if String.eqb k "dark" then
    Some {| bg := "#0D1117"; text := "#E5E7EB"; card := "#111827" |}
  else None.

(** The property names a plain object inherits from [Object.prototype]:
    looking one up in the colour table gives an object without [bg] and
    [text] rather than [undefined]. *)
Definition inherited (k : string) : bool :=
  bool_decide (k ∈ ["constructor"; "hasOwnProperty"; "isPrototypeOf";
                    "propertyIsEnumerable"; "toLocaleString"; "toString";
                    "valueOf"; "__proto__"; "__defineGetter__";
                    "__defineSetter__"; "__lookupGetter__";
                    "__lookupSetter__"]).

(** The effect of [Layout], which gives the values of the style properties
    [--bg] and [--text]: [THEME_COLORS[theme].bg] and
    [THEME_COLORS[theme].text]. Reading a field of [undefined] throws
    ([None]) and nothing in the page catches it; a missing field is set as
    the text [undefined]. *)
Definition Layout_effect (theme : string) : option (string * string) :=
  match THEME_COLORS theme with
  | Some c => Some (bg c, text c)
  | None => if inherited theme then Some ("undefined", "undefined") else None
  end.

(** A page opened on a store whose entry is neither ['light'] nor
    ['dark'], in an environment that prefers light. The entry is an
    inherited property name, so that the effect of [Layout] completes and
    the toggle button is there to be clicked. *)
Definition opened_on_constructor : State :=
  useTheme_mount {[ "theme" := "constructor" ]} false false.

End Theme.

(** ** The scroll direction tracker: [useScrollDirection] *)

Module Scroll.

(** [dir] is the React state cell, [last] the ref [last.current].
    [window.scrollY] is a finite number; offsets are rationals, on which
    the comparison [>] of the source is the usual order. *)
Record State := mkState {
  dir : string;
  last : Q
}.

(** [useState('up')] and [useRef(window.scrollY)]. *)
Definition useScrollDirection_init (scrollY : Q) : State :=
  {| dir := "up"; last := scrollY |}.

(** The listener [onScroll], called with the current [window.scrollY]. *)
Definition onScroll (y : Q) (st : State) : State :=
  {| dir := if Qlt_le_dec (last st) y then "down" else "up";
     last := y |}.

(** The directions reported after each event of a run of scroll events. *)
Fixpoint track (st : State) (ys : list Q) : list string :=
  match ys with
  | [] => []
  | y :: ys' => let st' := onScroll y st in dir st' :: track st' ys'
  end.

(** [chain R y ys]: consecutive elements of [y :: ys] are related by [R]. *)
Inductive chain (R : Q → Q → Prop) : Q → list Q → Prop :=
  | chain_nil y : chain R y []
  | chain_cons y z ys : R y z → chain R z ys → chain R y (z :: ys).

End Scroll.

(** ** String primitives: [String.prototype.split] and [trim] *)

Module Str.

(** White space and line terminators among the code units 0..255:
    TAB, LF, VT, FF, CR, SPACE and NO-BREAK SPACE. *)
Definition isWhiteSpace (c : ascii) : bool :=
  let n := nat_of_ascii c in
  (n =? 9)%nat || (n =? 10)%nat || (n =? 11)%nat || (n =? 12)%nat ||
  (n =? 13)%nat || (n =? 32)%nat || (n =? 160)%nat.

(** [s.split(sep)] for a separator of one code unit. *)
Fixpoint split (sep : ascii) (s : string) : list string :=
  match s with
  | EmptyString => [EmptyString]
  | String c s' =>
      if Ascii.eqb c sep then EmptyString :: split sep s'
      else match split sep s' with
           | p :: ps => String c p :: ps
           | [] => [String c EmptyString]
           end
  end.

(** [l.join(sep)]. *)
Fixpoint join (sep : string) (l : list string) : string :=
  match l with
  | [] => EmptyString
  | [p] => p
  | p :: ps => p +:+ sep +:+ join sep ps
  end.

Fixpoint trimStart (s : string) : string :=
  match s with
  | EmptyString => EmptyString
  | String c s' => if isWhiteSpace c then trimStart s' else s
  end.

Fixpoint trimEnd (s : string) : string :=
  match s with
  | EmptyString => EmptyString
  | String c s' =>
      match trimEnd s' with
      | EmptyString => if isWhiteSpace c then EmptyString else String c EmptyString
      | t => String c t
      end
  end.

Definition trim (s : string) : string := trimEnd (trimStart s).

(** Every code unit of [s] is white space. *)
Fixpoint blank (s : string) : bool :=
  match s with
  | EmptyString => true
  | String c s' => isWhiteSpace c && blank s'
  end.

(** Number of occurrences of [c] in [s]. *)
Fixpoint count (c : ascii) (s : string) : nat :=
  match s with
  | EmptyString => 0
  | String d s' => (if Ascii.eqb d c then 1 else 0) + count c s'
  end.

(** First and last code unit, when there is one. *)
Definition first (s : string) : option ascii :=
  match s with
  | EmptyString => None
  | String c _ => Some c
  end.

Fixpoint final (s : string) : option ascii :=
  match s with
  | EmptyString => None
  | String c EmptyString => Some c
  | String _ s' => final s'
  end.

(** [s] neither starts nor ends with white space. *)
Definition trimmed (s : string) : Prop :=
  (∀ c, first s = Some c → isWhiteSpace c = false) ∧
  (∀ c, final s = Some c → isWhiteSpace c = false).

End Str.

(** ** The studio page: [Studio.login] and [Studio.create] *)

Module Studio.

(** The values handed to [JSON.stringify]; the fields of an object keep
    their insertion order. *)
#[local] Unset Elimination Schemes.
Inductive Json :=
  | JStr (s : string)
  | JNum (n : Z)
  | JArr (items : list Json)
  | JObj (fields : list (string * Json)).
#[local] Set Elimination Schemes.

(** The arguments of one [fetch] call. *)
Record Request := mkRequest {
  url : string;
  method : string;
  headers : list (string * string);
  body : Json
}.

(** The draft held in the [form] state cell. *)
Record Form := mkForm {
  type : string;
  title : string;
  slug : string;
  summary : string;
  tech : string
}.

(** [token] is a React state cell: a string, or [undefined] ([None]). *)
Record State := mkState {
  token : option string;
  password : string;
  form : Form;
  storage : gmap string string
}.

(** What [await fetch(...)] followed by [await res.json()] can produce:
    the request fails, or a response arrives with its [ok] flag and, when
    its body parses to an object, the field [access_token] of that object
    ([None] when the field is missing, which reads as [undefined]). *)
Record Body := mkBody { access_token : option string }.

Inductive Outcome :=
  | NetworkError
  | Response (ok : bool) (json : option Body).

(** The initial state cells:
    [useState(localStorage.getItem('token')||'')], [useState('')] and the
    empty project draft. *)
Definition Studio_init (ls : gmap string string) : State :=
  {| token := Some (match ls !! "token" with
                    | Some s => if JS.truthy s then s else ""
                    | None => ""
                    end);
     password := "";
     form := {| type := "project"; title := ""; slug := ""; summary := "";
                tech := "" |};
     storage := ls |}.

(** The page shows the draft form when [token] is truthy and the login
    form otherwise. *)
Definition authenticated (st : State) : bool := JS.truthy_item (token st).

(** The request sent by [login]; [base] is [VITE_BACKEND_URL || '']. *)
Definition login_request (base : string) (st : State) : Request :=
  {| url := base +:+ "/auth/login";
     method := "POST";
     headers := [("Content-Type", "application/json")];
     body := JObj [("password", JStr (password st))] |}.

(** The continuation of [login] after the request settles. *)
Definition login (o : Outcome) (st : State) : State :=
  match o with
  | Response true (Some data) =>
      {| token := access_token data;
         password := password st;
         form := form st;
         storage := <["token" := JS.to_string (access_token data)]> (storage st) |}
  | _ => st
  end.

(** [form.tech.split(',').map(s => s.trim())]. *)
Definition tags (raw : string) : list string :=
  map Str.trim (Str.split "," raw).

Definition create_body (f : Form) : Json :=
  if String.eqb (type f) "project" then
    JObj [("title", JStr (title f)); ("slug", JStr (slug f));
          ("summary", JStr (summary f));
          ("tech", JArr (map JStr (tags (tech f))))]
  else if String.eqb (type f) "blog" then
    JObj [("title", JStr (title f)); ("slug", JStr (slug f));
          ("excerpt", JStr (summary f));
          ("tags", JArr (map JStr (tags (tech f))));
          ("read_time", JNum 4)]
  else
    JObj [("name", JStr (title f)); ("category", JStr (slug f));
          ("level", JStr (summary f))].

Definition create_endpoint (f : Form) : string :=
  if String.eqb (type f) "project" then "/projects"
  else if String.eqb (type f) "blog" then "/blog"
  else "/tech".

(** The request sent by [create]. *)
Definition create (base : string) (st : State) : Request :=
  {| url := base +:+ create_endpoint (form st);
     method := "POST";
     headers := [("Content-Type", "application/json");
                 ("Authorization", "Bearer " +:+ JS.to_string (token st))];
     body := create_body (form st) |}.

End Studio.

(** ** The theme cells of the page: [Layout] and [Navbar] *)

Module App.

(** The states of the hook the page itself produces: the mount, then
    clicks on the toggle button (the only caller of [setTheme]). *)
Inductive in_use : Theme.State → Prop :=
  | use_mount ls prefersDark cls :
      in_use (Theme.useTheme_mount ls prefersDark cls)
  | use_toggle st :
      in_use st → in_use (Theme.toggle st).

(** [Layout] and [Navbar] each call [useTheme], so each owns a state
    cell ([layout], [navbar]); they share [localStorage] and the class
    list of the document. [style] holds the values of [--bg] and [--text]
    set by the second effect of [Layout]. *)
Record State := mkState {
  layout : string;
  navbar : string;
  storage : gmap string string;
  darkClass : bool;
  style : string * string
}.

(** First render of [Layout] and [Navbar] (both initializers read the
    store before any effect has run), then the mount effects, child first:
    the [useTheme] effect of [Navbar], the [useTheme] effect of [Layout],
    and the colour effect of [Layout], which may throw ([None]). *)
Definition mount (ls : gmap string string) (prefersDark cls : bool) : option State :=
  let t_layout := Theme.useTheme_init ls prefersDark in
  let t_navbar := Theme.useTheme_init ls prefersDark in
  let nav := Theme.useTheme_effect
               {| Theme.theme := t_navbar; Theme.storage := ls;
                  Theme.darkClass := cls |} in
  let lay := Theme.useTheme_effect
               {| Theme.theme := t_layout; Theme.storage := Theme.storage nav;
                  Theme.darkClass := Theme.darkClass nav |} in
  match Theme.Layout_effect t_layout with
  | Some vars =>
      Some {| layout := t_layout; navbar := t_navbar;
              storage := Theme.storage lay; darkClass := Theme.darkClass lay;
              style := vars |}
  | None => None
  end.

(** The hook instance of [Navbar] within the page. *)
Definition navbar_hook (st : State) : Theme.State :=
  {| Theme.theme := navbar st; Theme.storage := storage st;
     Theme.darkClass := darkClass st |}.

(** A click on the toggle button: the [setTheme] of [Navbar] runs on the
    cell of [Navbar]; [Layout] is not rendered again, and neither its cell
    nor its effects (dependency list [[theme]], its own cell) are touched. *)
Definition click (st : State) : State :=
  let nav := Theme.toggle (navbar_hook st) in
  {| layout := layout st; navbar := Theme.theme nav;
     storage := Theme.storage nav; darkClass := Theme.darkClass nav;
     style := style st |}.

End App.

(** ** The navigation bar over a run of scroll events *)

Module Nav.

(** The state of the tracker after a run of scroll events. *)
Definition run (st : Scroll.State) (ys : list Q) : Scroll.State :=
  fold_left (λ s y, Scroll.onScroll y s) ys st.

(** [animate={dir === 'up' ? 'visible' : 'hidden'}]. *)
Definition animate (dir : string) : string :=
  if String.eqb dir "up" then "visible" else "hidden".

End Nav.

(** ** The project page: [ProjectDetail] *)

Module Detail.

(** [pathname.split('/').pop()]; [None] is [undefined], the result of
    [pop] on an empty array. *)
Definition slug (pathname : string) : option string :=
  last (Str.split "/" pathname).

(** The address fetched on mount; [base] is [VITE_BACKEND_URL || '']. *)
Definition project_url (base pathname : string) : string :=
  base +:+ "/projects/slug/" +:+ JS.to_string (slug pathname).

End Detail.

(** ** Reading a request body *)

Module Wire.


End Wire.

(** ** The setters, phase by phase *)

Module Phases.

(** A [useTheme] instance between the phases of an update. [cell] is the
    value a render reads as [theme]; [queued] is the update that a call of
    [setTheme] has scheduled and that no render has taken up yet; [dep] is
    the value of [theme] at the last run of the effect, against which the
    dependency list [[theme]] is compared. *)
Record Hook := mkHook {
  cell : string;
  queued : option string;
  dep : string;
  storage : gmap string string;
  darkClass : bool
}.

(** A hook at rest: nothing is scheduled and the effect has run for the
    current cell. *)
Definition settled (st : Theme.State) : Hook :=
  {| cell := Theme.theme st; queued := None; dep := Theme.theme st;
     storage := Theme.storage st; darkClass := Theme.darkClass st |}.

(** The call [setTheme(next)] itself: it schedules the update and
    returns; the cell, the store and the class list are as before. *)
Definition setTheme_call (next : string) (h : Hook) : Hook :=
  {| cell := cell h; queued := Some next; dep := dep h;
     storage := storage h; darkClass := darkClass h |}.

(** The render that follows: [useState] returns the scheduled value. *)
Definition rerender (h : Hook) : Hook :=
  match queued h with
  | Some next =>
      {| cell := next; queued := None; dep := dep h;
         storage := storage h; darkClass := darkClass h |}
  | None => h
  end.

(** After the render, the effect runs if [theme] differs from its value
    at the last run:
    [classList.toggle('dark', theme === 'dark')] and
    [localStorage.setItem('theme', theme)]. *)
Definition run_effect (h : Hook) : Hook :=
  if String.eqb (cell h) (dep h) then h
  else {| cell := cell h; queued := queued h; dep := cell h;
          storage := <["theme" := cell h]> (storage h);
          darkClass := String.eqb (cell h) "dark" |}.

(** The studio page between the phases of [login]: [page] holds the state
    cells as rendered and the store; [queued_token] is the update that
    [setToken] has scheduled. *)
Record Studio := mkStudio {
  page : Studio.State;
  queued_token : option (option string)
}.

Definition at_rest (st : Studio.State) : Studio :=
  {| page := st; queued_token := None |}.

(** The continuation of [login] up to its return:
    [setToken(data.access_token)] schedules the update of the cell and
    [localStorage.setItem('token', data.access_token)] writes the store. *)
Definition login_call (o : Studio.Outcome) (s : Studio) : Studio :=
  match o with
  | Studio.Response true (Some data) =>
      {| page :=
           {| Studio.token := Studio.token (page s);
              Studio.password := Studio.password (page s);
              Studio.form := Studio.form (page s);
              Studio.storage :=
                <["token" := JS.to_string (Studio.access_token data)]>
                  (Studio.storage (page s)) |};
         queued_token := Some (Studio.access_token data) |}
  | _ => s
  end.

(** The render that follows: the token cell takes the scheduled value. *)
Definition login_rerender (s : Studio) : Studio :=
  match queued_token s with
  | Some v =>
      {| page :=
           {| Studio.token := v;
              Studio.password := Studio.password (page s);
              Studio.form := Studio.form (page s);
              Studio.storage := Studio.storage (page s) |};
         queued_token := None |}
  | None => s
  end.

End Phases.

(** * Properties *)

(** ** Truthiness *)

Section Truthiness.

Import JS.

Lemma truthy_spec (s : string) : truthy s = true ↔ s ≠ "".
Proof.
  unfold truthy. rewrite negb_true_iff.
  destruct (String.eqb_spec s ""); split; congruence.
Qed.

End Truthiness.

(** ** Theme store *)

Section ThemeStore.

Import Theme.

Lemma effect_consistent st : consistent (useTheme_effect st).
Proof.
  split; simpl; [apply lookup_insert_eq | reflexivity].
Qed.

Lemma setTheme_consistent next st :
  consistent st → consistent (setTheme next st).
Proof.
  intros Hst. unfold setTheme.
  destruct (String.eqb next (theme st)); [exact Hst | apply effect_consistent].
Qed.

Lemma reachable_consistent st : reachable st → consistent st.
Proof.
  induction 1 as [ls pd cls | next st _ IH].
  - apply effect_consistent.
  - by apply setTheme_consistent.
Qed.

Lemma setTheme_theme next st : theme (setTheme next st) = next.
Proof.
  unfold setTheme.
  destruct (String.eqb_spec next (theme st)) as [-> | _]; reflexivity.
Qed.

Lemma ambient_cases (ls : gmap string string) (prefersDark : bool) :
  ¬ JS.truthy_item (ls !! "theme") = true →
  useTheme_init ls prefersDark = if prefersDark then "dark" else "light".
Proof.
  unfold useTheme_init. intros Hfalsy.
  destruct (ls !! "theme") as [s|] eqn:E; [|reflexivity].
  simpl in Hfalsy. by destruct (JS.truthy s).
Qed.

(** C1. The initial theme is the persisted preference ['light'] or
    ['dark'] when there is one, whatever the ambient colour scheme; without
    a persisted value it is ['dark'] when the environment prefers dark and
    ['light'] otherwise, so that it is ['light'] when neither signal is
    there. *)
Theorem useTheme_init_precedence (ls : gmap string string) (prefersDark : bool) :
  (∀ t, t = "light" ∨ t = "dark" →
        ls !! "theme" = Some t → useTheme_init ls prefersDark = t) ∧
  (ls !! "theme" = None →
     useTheme_init ls prefersDark = if prefersDark then "dark" else "light") ∧
  (ls !! "theme" = None → prefersDark = false →
     useTheme_init ls prefersDark = "light").
Proof.
  repeat split.
  - intros t Ht Hls. unfold useTheme_init. rewrite Hls.
    by destruct Ht as [-> | ->].
  - intros Hls. apply ambient_cases. by rewrite Hls.
  - intros Hls ->. rewrite ambient_cases; [done | by rewrite Hls].
Qed.

Lemma useTheme_init_precedence_witness :
  useTheme_init {[ "theme" := "light" ]} true = "light" ∧
  useTheme_init ∅ true = "dark" ∧
  useTheme_init ∅ false = "light".
Proof.
  split; [| split].
  - apply (proj1 (useTheme_init_precedence {[ "theme" := "light" ]} true));
      [left; reflexivity | reflexivity].
  - apply (proj1 (proj2 (useTheme_init_precedence ∅ true))). reflexivity.
  - apply (proj2 (proj2 (useTheme_init_precedence ∅ false))); reflexivity.
Defined.

(** C10. The initializer returns any non-empty persisted string as it is,
    without checking that it is ['light'] or ['dark']; a persisted empty
    string counts as absent and the ambient preference decides. *)
Theorem useTheme_init_unvalidated (ls : gmap string string) (prefersDark : bool) :
  (∀ s, s ≠ "" → ls !! "theme" = Some s → useTheme_init ls prefersDark = s) ∧
  (ls !! "theme" = Some "" →
     useTheme_init ls prefersDark = if prefersDark then "dark" else "light").
Proof.
  split.
  - intros s Hs Hls. unfold useTheme_init. rewrite Hls.
    apply truthy_spec in Hs. by rewrite Hs.
  - intros Hls. apply ambient_cases. by rewrite Hls.
Qed.

Lemma useTheme_init_unvalidated_witness :
  useTheme_init {[ "theme" := "system" ]} true = "system" ∧
  useTheme_init {[ "theme" := "" ]} true = "dark".
Proof.
  split.
  - apply (proj1 (useTheme_init_unvalidated {[ "theme" := "system" ]} true));
      [discriminate | reflexivity].
  - apply (proj2 (useTheme_init_unvalidated {[ "theme" := "" ]} true)).
    reflexivity.
Defined.

Lemma toggle_light st :
  theme st = "light" → toggle st = useTheme_effect
    {| theme := "dark"; storage := storage st; darkClass := darkClass st |}.
Proof. unfold toggle, setTheme. intros ->. reflexivity. Qed.

Lemma toggle_dark st :
  theme st = "dark" → toggle st = useTheme_effect
    {| theme := "light"; storage := storage st; darkClass := darkClass st |}.
Proof. unfold toggle, setTheme. intros ->. reflexivity. Qed.

Lemma toggle_twice_consistent st :
  consistent st → theme st = "light" ∨ theme st = "dark" →
  toggle (toggle st) = st.
Proof.
  intros [Hls Hcls] Hth. destruct st as [th ls cls]. simpl in *.
  destruct Hth as [-> | ->].
  - rewrite (toggle_light (mkState "light" ls cls)) by reflexivity.
    rewrite toggle_dark by reflexivity.
    unfold useTheme_effect; simpl. f_equal; [| by rewrite Hcls].
    rewrite insert_insert_eq. by apply insert_id.
  - rewrite (toggle_dark (mkState "dark" ls cls)) by reflexivity.
    rewrite toggle_light by reflexivity.
    unfold useTheme_effect; simpl. f_equal; [| by rewrite Hcls].
    rewrite insert_insert_eq. by apply insert_id.
Qed.

(** C8, as the code has it. From a state of the mounted hook whose theme
    is ['light'] or ['dark'], two clicks on the toggle give back the same
    in-memory theme and the same persisted entry under ['theme'] (indeed
    the same state as a whole). *)
Theorem toggle_twice_restores (st : State) :
  reachable st →
  theme st = "light" ∨ theme st = "dark" →
  theme (toggle (toggle st)) = theme st ∧
  storage (toggle (toggle st)) !! "theme" = storage st !! "theme" ∧
  toggle (toggle st) = st.
Proof.
  intros Hreach Hth.
  assert (toggle (toggle st) = st) as Heq
    by (apply toggle_twice_consistent; [by apply reachable_consistent | done]).
  by rewrite Heq.
Qed.

Lemma toggle_twice_restores_witness :
  theme (toggle (toggle (useTheme_mount ∅ true false))) = "dark" ∧
  storage (toggle (toggle (useTheme_mount ∅ true false))) !! "theme"
    = Some "dark".
Proof.
  destruct (toggle_twice_restores (useTheme_mount ∅ true false))
    as (Hth & Hls & _).
  - apply reach_mount.
  - right. reflexivity.
  - split; [exact Hth | rewrite Hls; reflexivity].
Defined.

(** C8, as stated, fails: the page opened on the persisted value
    ['constructor'] holds that value as its theme and mounts; the first
    click sets ['dark'], the second ['light'], and neither the theme nor
    the persisted entry comes back to the value they started from. *)
Lemma toggle_twice_loses_unvalidated_theme :
  reachable opened_on_constructor ∧
  theme opened_on_constructor = "constructor" ∧
  is_Some (Layout_effect (theme opened_on_constructor)) ∧
  theme (toggle (toggle opened_on_constructor)) = "light" ∧
  theme (toggle (toggle opened_on_constructor))
    ≠ theme opened_on_constructor ∧
  storage (toggle (toggle opened_on_constructor)) !! "theme"
    ≠ storage opened_on_constructor !! "theme".
Proof.
  split; [apply reach_mount |].
  split; [reflexivity |].
  split; [by eexists |].
  repeat split; discriminate.
Qed.

End ThemeStore.

(** ** Scroll direction *)

Section ScrollDirection.

Import Scroll.

Lemma onScroll_down st y : (last st < y)%Q → dir (onScroll y st) = "down".
Proof.
  intros Hlt. unfold onScroll; simpl.
  destruct (Qlt_le_dec (last st) y) as [_ | Hle]; [reflexivity |].
  exfalso. exact (Qlt_not_le _ _ Hlt Hle).
Qed.

Lemma onScroll_up st y : (y <= last st)%Q → dir (onScroll y st) = "up".
Proof.
  intros Hle. unfold onScroll; simpl.
  destruct (Qlt_le_dec (last st) y) as [Hlt | _]; [| reflexivity].
  exfalso. exact (Qlt_not_le _ _ Hlt Hle).
Qed.

Lemma chain_weaken (R R' : Q → Q → Prop) y ys :
  (∀ a b, R a b → R' a b) → chain R y ys → chain R' y ys.
Proof.
  intros Hsub. induction 1; constructor; auto.
Qed.

Lemma track_increasing y0 ys :
  chain Qlt y0 ys →
  ∀ st, last st = y0 → track st ys = repeat "down" (length ys).
Proof.
  induction 1 as [y | y z ys Hyz _ IH]; intros st Hst;
    cbn [track length repeat]; [done |].
  rewrite onScroll_down by (rewrite Hst; exact Hyz).
  f_equal. by apply IH.
Qed.

Lemma track_nonincreasing y0 ys :
  chain (λ a b, (b <= a)%Q) y0 ys →
  ∀ st, last st = y0 → track st ys = repeat "up" (length ys).
Proof.
  induction 1 as [y | y z ys Hzy _ IH]; intros st Hst;
    cbn [track length repeat]; [done |].
  rewrite onScroll_up by (rewrite Hst; exact Hzy).
  f_equal. by apply IH.
Qed.

(** C6. On each scroll event the tracker reports ['down'] exactly when
    the new offset is strictly greater than the recorded one and ['up']
    exactly when it is lesser or equal, and records the new offset. Hence
    a run of strictly increasing offsets reports ['down'] at every step, a
    run of decreasing offsets reports ['up'] at every step, and so does a
    run of equal offsets. *)
Theorem scroll_direction_mapping :
  (∀ st y,
     (dir (onScroll y st) = "down" ↔ (last st < y)%Q) ∧
     (dir (onScroll y st) = "up" ↔ (y <= last st)%Q) ∧
     last (onScroll y st) = y) ∧
  (∀ st ys, chain Qlt (last st) ys →
     track st ys = repeat "down" (length ys)) ∧
  (∀ st ys, chain (λ a b, (b < a)%Q) (last st) ys →
     track st ys = repeat "up" (length ys)) ∧
  (∀ st ys, chain Qeq (last st) ys →
     track st ys = repeat "up" (length ys)).
Proof.
  split; [| split; [| split]].
  - intros st y. split; [| split; [| reflexivity]].
    + split; [| apply onScroll_down].
      destruct (Qlt_le_dec (last st) y) as [Hlt | Hle]; [done |].
      rewrite (onScroll_up st y Hle). discriminate.
    + split; [| apply onScroll_up].
      destruct (Qlt_le_dec (last st) y) as [Hlt | Hle]; [| done].
      rewrite (onScroll_down st y Hlt). discriminate.
  - intros st ys Hch. by apply (track_increasing (last st)).
  - intros st ys Hch. apply (track_nonincreasing (last st)); [| done].
    revert Hch. apply chain_weaken. intros a b. apply Qlt_le_weak.
  - intros st ys Hch. apply (track_nonincreasing (last st)); [| done].
    revert Hch. apply chain_weaken. intros a b Hab.
    rewrite Hab. apply Qle_refl.
Qed.

Lemma scroll_direction_mapping_witness :
  dir (onScroll 5%Q (useScrollDirection_init 2%Q)) = "down" ∧
  dir (onScroll 2%Q (useScrollDirection_init 2%Q)) = "up" ∧
  track (useScrollDirection_init 0%Q) [1%Q; 2%Q; (5 # 2)%Q]
    = ["down"; "down"; "down"] ∧
  track (useScrollDirection_init 9%Q) [4%Q; 1%Q; 0%Q] = ["up"; "up"; "up"] ∧
  track (useScrollDirection_init 3%Q) [3%Q; 3%Q] = ["up"; "up"].
Proof.
  destruct scroll_direction_mapping as (Hstep & Hinc & Hdec & Hconst).
  split; [| split; [| split; [| split]]].
  - apply (Hstep (useScrollDirection_init 2%Q) 5%Q). reflexivity.
  - apply (Hstep (useScrollDirection_init 2%Q) 2%Q). discriminate.
  - apply (Hinc (useScrollDirection_init 0%Q) [1%Q; 2%Q; (5 # 2)%Q]).
    repeat constructor.
  - apply (Hdec (useScrollDirection_init 9%Q) [4%Q; 1%Q; 0%Q]).
    repeat constructor.
  - apply (Hconst (useScrollDirection_init 3%Q) [3%Q; 3%Q]).
    repeat constructor.
Defined.

End ScrollDirection.

(** ** Splitting and trimming *)

Section SplitTrim.

Import Str.

Lemma split_not_nil sep s : split sep s ≠ [].
Proof.
  destruct s as [| c s]; simpl; [discriminate |].
  destruct (Ascii.eqb c sep); [discriminate |].
  destruct (split sep s); discriminate.
Qed.

Lemma append_cons c (a b : string) : String c a +:+ b = String c (a +:+ b).
Proof. reflexivity. Qed.

Lemma append_nil_l (a : string) : "" +:+ a = a.
Proof. reflexivity. Qed.

Lemma join_cons sep p q qs :
  join sep (p :: q :: qs) = p +:+ sep +:+ join sep (q :: qs).
Proof. reflexivity. Qed.

Lemma join_split sep s : join (String sep "") (split sep s) = s.
Proof.
  induction s as [| c s IH]; [reflexivity |].
  cbn [split]. pose proof (split_not_nil sep s) as Hne.
  destruct (Ascii.eqb_spec c sep) as [-> | Hc].
  - destruct (split sep s) as [| q qs]; [done |].
    rewrite join_cons, IH. reflexivity.
  - destruct (split sep s) as [| q qs]; [done |].
    destruct qs as [| q' qs].
    + cbn [join] in *. by rewrite IH.
    + rewrite join_cons, append_cons. rewrite join_cons in IH. by rewrite IH.
Qed.

Lemma split_sep_free sep s : Forall (λ p, count sep p = 0) (split sep s).
Proof.
  induction s as [| c s IH]; cbn [split].
  - by constructor.
  - destruct (Ascii.eqb c sep) eqn:Hc.
    + by constructor.
    + destruct (split sep s) as [| q qs]; [by repeat constructor; simpl; rewrite Hc |].
      inversion IH as [| ? ? Hq Hqs]; subst.
      constructor; [| done]. simpl. by rewrite Hc, Hq.
Qed.

Lemma split_length sep s : length (split sep s) = S (count sep s).
Proof.
  induction s as [| c s IH]; cbn [split count]; [reflexivity |].
  pose proof (split_not_nil sep s) as Hne.
  destruct (Ascii.eqb c sep).
  - simpl. by rewrite IH.
  - destruct (split sep s) as [| q qs]; [done |]. simpl in *. exact IH.
Qed.

Lemma trimStart_spec s :
  ∃ l, s = l +:+ trimStart s ∧ blank l = true ∧
       ∀ c, first (trimStart s) = Some c → isWhiteSpace c = false.
Proof.
  induction s as [| c s (l & Hs & Hl & Hfirst)].
  - exists "". by repeat split.
  - simpl. destruct (isWhiteSpace c) eqn:Hc.
    + exists (String c l). repeat split.
      * rewrite append_cons. by rewrite <- Hs.
      * simpl. by rewrite Hc, Hl.
      * exact Hfirst.
    + exists "". repeat split. simpl. by intros ? [= <-].
Qed.

Lemma trimEnd_spec s :
  ∃ r, s = trimEnd s +:+ r ∧ blank r = true ∧
       ∀ c, final (trimEnd s) = Some c → isWhiteSpace c = false.
Proof.
  induction s as [| c s (r & Hs & Hr & Hfinal)].
  - exists "". by repeat split.
  - cbn [trimEnd]. destruct (trimEnd s) as [| d t] eqn:Ht.
    + rewrite append_nil_l in Hs. subst r. destruct (isWhiteSpace c) eqn:Hc.
      * exists (String c s). repeat split; simpl; [by rewrite Hc, Hr | done].
      * exists s. repeat split; simpl; [done |]. by intros ? [= <-].
    + exists r. repeat split; [| done | exact Hfinal].
      rewrite append_cons. by rewrite <- Hs.
Qed.

Lemma trimEnd_first s c :
  first (trimEnd s) = Some c → first s = Some c.
Proof.
  destruct s as [| d s]; [done |]. cbn [trimEnd].
  destruct (trimEnd s); [destruct (isWhiteSpace d) |]; done.
Qed.

Lemma trim_spec s :
  ∃ l r, s = l +:+ trim s +:+ r ∧ blank l = true ∧ blank r = true ∧
         trimmed (trim s).
Proof.
  destruct (trimStart_spec s) as (l & Hs & Hl & Hfirst).
  destruct (trimEnd_spec (trimStart s)) as (r & Hmid & Hr & Hfinal).
  exists l, r. unfold trim, trimmed. repeat split; try done.
  - rewrite <- Hmid. exact Hs.
  - intros c Hc. apply Hfirst. by apply trimEnd_first.
Qed.

End SplitTrim.

(** ** Studio: login and draft submission *)

Section StudioPage.

Import Studio.

Lemma tags_lookup raw i :
  tags raw !! i = Str.trim <$> (Str.split "," raw !! i).
Proof. unfold tags. apply list_lookup_fmap. Qed.

Lemma tags_length raw : length (tags raw) = S (Str.count "," raw).
Proof. unfold tags. rewrite length_map. apply split_length. Qed.

Lemma create_body_project f :
  type f = "project" →
  create_body f =
    JObj [("title", JStr (title f)); ("slug", JStr (slug f));
          ("summary", JStr (summary f));
          ("tech", JArr (map JStr (tags (tech f))))].
Proof. intros Hty. unfold create_body. by rewrite Hty. Qed.

Lemma create_body_blog f :
  type f = "blog" →
  create_body f =
    JObj [("title", JStr (title f)); ("slug", JStr (slug f));
          ("excerpt", JStr (summary f));
          ("tags", JArr (map JStr (tags (tech f))));
          ("read_time", JNum 4)].
Proof. intros Hty. unfold create_body. by rewrite Hty. Qed.

(** C3. The submission of a project draft sends, as [tech], the tag list
    of the tags field, and the submission of a blog draft sends it as
    [tags]. That list is obtained by cutting the field at its commas (the
    pieces joined by commas give the field back, no piece holds a comma,
    and there is one piece more than there are commas, so empty pieces are
    kept), and by trimming each piece, in the same order: the tag at an
    index is the trimmed piece at that index, and a trimmed piece is the
    piece without the white space around it. On ["react, ts ,  node"] the
    list is [react], [ts], [node]. *)
Theorem tags_split_trim (raw : string) :
  (∀ base st, tech (form st) = raw → type (form st) = "project" →
     body (create base st) =
       JObj [("title", JStr (title (form st))); ("slug", JStr (slug (form st)));
             ("summary", JStr (summary (form st)));
             ("tech", JArr (map JStr (tags raw)))]) ∧
  (∀ base st, tech (form st) = raw → type (form st) = "blog" →
     body (create base st) =
       JObj [("title", JStr (title (form st))); ("slug", JStr (slug (form st)));
             ("excerpt", JStr (summary (form st)));
             ("tags", JArr (map JStr (tags raw)));
             ("read_time", JNum 4)]) ∧
  Str.join "," (Str.split "," raw) = raw ∧
  Forall (λ p, Str.count "," p = 0) (Str.split "," raw) ∧
  length (tags raw) = S (Str.count "," raw) ∧
  (∀ i, tags raw !! i = Str.trim <$> (Str.split "," raw !! i)) ∧
  (∀ p, ∃ l r, p = l +:+ Str.trim p +:+ r ∧
               Str.blank l = true ∧ Str.blank r = true ∧
               Str.trimmed (Str.trim p)) ∧
  tags "react, ts ,  node" = ["react"; "ts"; "node"].
Proof.
  split; [intros base st <- Hty; by apply create_body_project |].
  split; [intros base st <- Hty; by apply create_body_blog |].
  split; [apply join_split |].
  split; [apply split_sep_free |].
  split; [apply tags_length |].
  split; [intros i; apply tags_lookup |].
  split; [intros p; apply trim_spec | reflexivity].
Qed.

Lemma tags_split_trim_witness :
  body (create "" (mkState (Some "abc") ""
                     (mkForm "project" "Foo" "foo" "bar" "react, ts ,  node")
                     ∅))
    = JObj [("title", JStr "Foo"); ("slug", JStr "foo");
            ("summary", JStr "bar");
            ("tech", JArr [JStr "react"; JStr "ts"; JStr "node"])] ∧
  body (create "" (mkState (Some "abc") ""
                     (mkForm "blog" "Foo" "foo" "bar" "react, ts ,  node")
                     ∅))
    = JObj [("title", JStr "Foo"); ("slug", JStr "foo");
            ("excerpt", JStr "bar");
            ("tags", JArr [JStr "react"; JStr "ts"; JStr "node"]);
            ("read_time", JNum 4)].
Proof.
  destruct (tags_split_trim "react, ts ,  node")
    as (Hproject & Hblog & _ & _ & _ & _ & _ & Hexample).
  split.
  - rewrite (Hproject "" (mkState (Some "abc") ""
               (mkForm "project" "Foo" "foo" "bar" "react, ts ,  node") ∅));
      [| reflexivity | reflexivity].
    rewrite Hexample. reflexivity.
  - rewrite (Hblog "" (mkState (Some "abc") ""
               (mkForm "blog" "Foo" "foo" "bar" "react, ts ,  node") ∅));
      [| reflexivity | reflexivity].
    rewrite Hexample. reflexivity.
Defined.



(** C4. For the project draft with title [Foo], slug [foo], summary
    [bar] and tags field [a,b], [create] sends a POST to the [/projects]
    endpoint whose JSON body is the object with [title], [slug],
    [summary] and [tech] equal to the list [a], [b]. *)
Theorem create_project_request (base : string) (st : State) :
  form st = mkForm "project" "Foo" "foo" "bar" "a,b" →
  url (create base st) = base +:+ "/projects" ∧
  method (create base st) = "POST" ∧
  body (create base st) =
    JObj [("title", JStr "Foo"); ("slug", JStr "foo");
          ("summary", JStr "bar"); ("tech", JArr [JStr "a"; JStr "b"])].
Proof.
  intros Hform. unfold create. rewrite Hform. by repeat split.
Qed.

Lemma create_project_request_witness :
  url (create "" (mkState (Some "abc") ""
                    (mkForm "project" "Foo" "foo" "bar" "a,b") ∅))
    = "/projects" ∧
  body (create "" (mkState (Some "abc") ""
                     (mkForm "project" "Foo" "foo" "bar" "a,b") ∅))
    = JObj [("title", JStr "Foo"); ("slug", JStr "foo");
            ("summary", JStr "bar"); ("tech", JArr [JStr "a"; JStr "b"])].
Proof.
  destruct (create_project_request ""
              (mkState (Some "abc") ""
                 (mkForm "project" "Foo" "foo" "bar" "a,b") ∅))
    as (Hurl & _ & Hbody); [reflexivity |].
  split; [exact Hurl | exact Hbody].
Defined.

(** C5. For the blog draft with the same fields, [create] sends a POST
    to the [/blog] endpoint whose JSON body is the object with [title],
    [slug], [excerpt] (the summary), [tags] equal to the list [a], [b],
    and [read_time] 4; and [read_time] is 4 for every blog draft. *)
Theorem create_blog_request (base : string) (st : State) :
  (form st = mkForm "blog" "Foo" "foo" "bar" "a,b" →
   url (create base st) = base +:+ "/blog" ∧
   method (create base st) = "POST" ∧
   body (create base st) =
     JObj [("title", JStr "Foo"); ("slug", JStr "foo");
           ("excerpt", JStr "bar"); ("tags", JArr [JStr "a"; JStr "b"]);
           ("read_time", JNum 4)]) ∧
  (type (form st) = "blog" →
   ∃ fields, body (create base st) = JObj fields ∧
             fields !! 4%nat = Some ("read_time", JNum 4) ∧
             length fields = 5%nat).
Proof.
  split.
  - intros Hform. unfold create. rewrite Hform. by repeat split.
  - intros Htype. unfold create, create_body; simpl. rewrite Htype; simpl.
    eexists. repeat split.
Qed.

Lemma create_blog_request_witness :
  url (create "" (mkState (Some "abc") ""
                    (mkForm "blog" "Foo" "foo" "bar" "a,b") ∅))
    = "/blog" ∧
  body (create "" (mkState (Some "abc") ""
                     (mkForm "blog" "Foo" "foo" "bar" "a,b") ∅))
    = JObj [("title", JStr "Foo"); ("slug", JStr "foo");
            ("excerpt", JStr "bar"); ("tags", JArr [JStr "a"; JStr "b"]);
            ("read_time", JNum 4)].
Proof.
  destruct (proj1 (create_blog_request ""
              (mkState (Some "abc") ""
                 (mkForm "blog" "Foo" "foo" "bar" "a,b") ∅)))
    as (Hurl & _ & Hbody); [reflexivity |].
  split; [exact Hurl | exact Hbody].
Defined.

Lemma login_success data st :
  login (Response true (Some data)) st =
    {| token := access_token data;
       password := password st;
       form := form st;
       storage := <["token" := JS.to_string (access_token data)]> (storage st) |}.
Proof. reflexivity. Qed.

Lemma login_failure o st :
  (∀ data, o ≠ Response true (Some data)) → login o st = st.
Proof.
  intros Hne. destruct o as [| [|] [data|]]; try reflexivity.
  by destruct (Hne data).
Qed.

(** C2, as the code has it. [login] posts the password to
    [/auth/login]. When the response has a success status and its body
    carries a non-empty access token, the page becomes authenticated and
    the token is held both in the state cell and in the store under
    ['token']. When the response has a non-success status, or the request
    fails, the state is unchanged: an unauthenticated page stays
    unauthenticated and the store is as before. *)
Theorem login_transition (base : string) (st : State) (o : Outcome) :
  (url (login_request base st) = base +:+ "/auth/login" ∧
   method (login_request base st) = "POST" ∧
   body (login_request base st) = JObj [("password", JStr (password st))]) ∧
  (∀ t, t ≠ "" → o = Response true (Some (mkBody (Some t))) →
     authenticated (login o st) = true ∧
     token (login o st) = Some t ∧
     storage (login o st) !! "token" = Some t) ∧
  (∀ json, o = Response false json → authenticated st = false →
     authenticated (login o st) = false ∧
     storage (login o st) = storage st) ∧
  (o = NetworkError ∨ (∃ json, o = Response false json) → login o st = st).
Proof.
  split; [by repeat split |]. split; [| split].
  - intros t Ht ->. rewrite login_success; simpl.
    split; [by apply truthy_spec |]. split; [done | apply lookup_insert_eq].
  - intros json -> Hst. by rewrite login_failure.
  - intros [-> | [json ->]]; by apply login_failure.
Qed.

Lemma login_transition_witness :
  authenticated (login (Response true (Some (mkBody (Some "abc"))))
                   (Studio_init ∅)) = true ∧
  storage (login (Response true (Some (mkBody (Some "abc"))))
             (Studio_init ∅)) !! "token" = Some "abc" ∧
  authenticated (login (Response false None) (Studio_init ∅)) = false ∧
  storage (login (Response false None) (Studio_init ∅)) = ∅.
Proof.
  destruct (login_transition "" (Studio_init ∅)
              (Response true (Some (mkBody (Some "abc")))))
    as (_ & Hok & _ & _).
  destruct (login_transition "" (Studio_init ∅) (Response false None))
    as (_ & _ & Hfail & _).
  destruct (Hok "abc") as (Hauth & _ & Hls); [discriminate | reflexivity |].
  destruct (Hfail None) as (Hunauth & Hsame); [reflexivity | reflexivity |].
  split; [exact Hauth |]. split; [exact Hls |].
  split; [exact Hunauth | exact Hsame].
Defined.

(** C2, as stated, fails: a success response whose body carries the empty
    string as access token leaves the page unauthenticated (the login form
    is still shown), although the body contains the field and the empty
    string is written to the store. *)
Lemma login_empty_token_not_authenticated :
  authenticated (Studio_init ∅) = false ∧
  authenticated (login (Response true (Some (mkBody (Some ""))))
                   (Studio_init ∅)) = false ∧
  storage (login (Response true (Some (mkBody (Some ""))))
             (Studio_init ∅)) !! "token" = Some "".
Proof. repeat split. Qed.

End StudioPage.

(** ** Write-through of the persisted cells *)

Section WriteThrough.

Lemma phases_setTheme next st :
  Phases.run_effect
    (Phases.rerender (Phases.setTheme_call next (Phases.settled st)))
  = Phases.settled (Theme.setTheme next st).
Proof.
  unfold Phases.run_effect, Phases.rerender, Phases.setTheme_call,
    Phases.settled, Theme.setTheme; simpl.
  destruct (String.eqb_spec next (Theme.theme st)) as [-> | Hne];
    reflexivity.
Qed.

Lemma phases_login o st :
  Phases.login_rerender (Phases.login_call o (Phases.at_rest st))
  = Phases.at_rest (Studio.login o st).
Proof.
  destruct o as [| [|] [data |]]; reflexivity.
Qed.

(** C7, as the code has it. At rest, a [useTheme] instance holds in its
    cell the value stored under ['theme']: this is so in every state the
    instance can reach, and after any [setTheme] once the render and the
    effect it triggers have run; these three phases together are the
    transition [setTheme]. The write is not made by the call: when
    [setTheme] returns, neither the cell nor the store has changed, and
    after the render the cell holds the new value while the store is as
    before, until the effect runs. For the token: after [login] has
    handled a success response whose body carries the token, and the page
    has rendered again, the cell and the entry under ['token'] hold that
    token; the call and the render together are the transition [login],
    and between them the store already holds the new token while the cell
    is as before. *)
Theorem write_through_consistency :
  (∀ st, Theme.reachable st →
     Theme.storage st !! "theme" = Some (Theme.theme st)) ∧
  (∀ next st, Theme.reachable st →
     Theme.theme (Theme.setTheme next st) = next ∧
     Theme.storage (Theme.setTheme next st) !! "theme" = Some next) ∧
  (∀ next st,
     Phases.run_effect
       (Phases.rerender (Phases.setTheme_call next (Phases.settled st)))
     = Phases.settled (Theme.setTheme next st)) ∧
  (∀ next h,
     Phases.cell (Phases.setTheme_call next h) = Phases.cell h ∧
     Phases.storage (Phases.setTheme_call next h) = Phases.storage h ∧
     Phases.cell (Phases.rerender (Phases.setTheme_call next h)) = next ∧
     Phases.storage (Phases.rerender (Phases.setTheme_call next h))
       = Phases.storage h) ∧
  (∀ t st,
     Studio.token
       (Studio.login (Studio.Response true (Some (Studio.mkBody (Some t)))) st)
       = Some t ∧
     Studio.storage
       (Studio.login (Studio.Response true (Some (Studio.mkBody (Some t)))) st)
       !! "token" = Some t) ∧
  (∀ o st,
     Phases.login_rerender (Phases.login_call o (Phases.at_rest st))
     = Phases.at_rest (Studio.login o st)) ∧
  (∀ data st,
     Studio.token
       (Phases.page
          (Phases.login_call (Studio.Response true (Some data))
             (Phases.at_rest st)))
       = Studio.token st ∧
     Studio.storage
       (Phases.page
          (Phases.login_call (Studio.Response true (Some data))
             (Phases.at_rest st)))
       !! "token" = Some (JS.to_string (Studio.access_token data))).
Proof.
  split; [| split; [| split; [| split; [| split; [| split]]]]].
  - intros st Hst. by destruct (reachable_consistent st Hst).
  - intros next st Hst.
    assert (Theme.reachable (Theme.setTheme next st)) as Hnext
      by (by constructor).
    destruct (reachable_consistent _ Hnext) as [Hls _].
    rewrite setTheme_theme in Hls. by rewrite setTheme_theme.
  - apply phases_setTheme.
  - intros next h. by repeat split.
  - intros t st. rewrite login_success; simpl.
    split; [done | apply lookup_insert_eq].
  - apply phases_login.
  - intros data st; simpl. split; [done | apply lookup_insert_eq].
Qed.

Lemma write_through_consistency_witness :
  Theme.storage (Theme.setTheme "dark" (Theme.useTheme_mount ∅ false false))
    !! "theme" = Some "dark" ∧
  Theme.theme (Theme.setTheme "dark" (Theme.useTheme_mount ∅ false false))
    = "dark".
Proof.
  destruct write_through_consistency as (_ & Hset & _).
  destruct (Hset "dark" (Theme.useTheme_mount ∅ false false)) as [Hth Hls].
  - apply Theme.reach_mount.
  - split; [exact Hls | exact Hth].
Defined.

(** C7, as stated, fails, in three ways. On the page opened with an
    empty store in a light environment: when [setTheme('dark')] returns the
    store still holds ['light'], and after the render the cell holds
    ['dark'] while the store holds ['light'], so the write is not
    synchronous with the setter. After a success response whose body has
    no [access_token], the token cell holds [undefined] and the store the
    text [undefined]. And after one click on the toggle, the theme cell of
    [Layout] holds ['light'] while the store holds ['dark']. *)
Lemma write_through_fails_as_stated :
  (Phases.storage
     (Phases.setTheme_call "dark"
        (Phases.settled (Theme.useTheme_mount ∅ false false)))
     !! "theme" = Some "light" ∧
   Phases.cell
     (Phases.rerender
        (Phases.setTheme_call "dark"
           (Phases.settled (Theme.useTheme_mount ∅ false false))))
     = "dark" ∧
   Phases.storage
     (Phases.rerender
        (Phases.setTheme_call "dark"
           (Phases.settled (Theme.useTheme_mount ∅ false false))))
     !! "theme" = Some "light") ∧
  (Studio.token
     (Studio.login (Studio.Response true (Some (Studio.mkBody None)))
        (Studio.Studio_init ∅)) = None ∧
   Studio.storage
     (Studio.login (Studio.Response true (Some (Studio.mkBody None)))
        (Studio.Studio_init ∅)) !! "token" = Some "undefined") ∧
  (∃ st0, App.mount ∅ false false = Some st0 ∧
          App.layout (App.click st0) = "light" ∧
          App.storage (App.click st0) !! "theme" = Some "dark").
Proof.
  split; [by repeat split |]. split; [by repeat split |].
  eexists. split; [reflexivity |]. by split.
Qed.

End WriteThrough.

(** ** Theme store: clicks, other keys, reloads *)

Section ThemeClicks.

Import Theme.

Lemma toggle_unfold st :
  toggle st =
    useTheme_effect
      {| theme := if String.eqb (theme st) "dark" then "light" else "dark";
         storage := storage st; darkClass := darkClass st |}.
Proof.
  unfold toggle, setTheme.
  destruct (String.eqb_spec (theme st) "dark") as [Hd | Hd].
  - by rewrite Hd.
  - assert (String.eqb "dark" (theme st) = false) as ->; [| done].
    apply String.eqb_neq. congruence.
Qed.

Lemma toggle_consistent st : consistent (toggle st).
Proof. rewrite toggle_unfold. apply effect_consistent. Qed.

Lemma toggle_light_or_dark st :
  theme (toggle st) = "light" ∨ theme (toggle st) = "dark".
Proof.
  rewrite toggle_unfold; simpl.
  destruct (String.eqb (theme st) "dark"); auto.
Qed.

Lemma toggle_theme_neq st : theme (toggle st) ≠ theme st.
Proof.
  rewrite toggle_unfold; simpl.
  destruct (String.eqb_spec (theme st) "dark") as [-> | Hd]; congruence.
Qed.

(** Every click on the toggle button changes the theme, whatever the state
    before: the new theme is ['light'] when the old one was ['dark'] and
    ['dark'] in every other case, it is written under ['theme'], and the
    class ['dark'] is set accordingly. *)
Theorem toggle_always_switches (st : State) :
  theme (toggle st) ≠ theme st ∧
  theme (toggle st) = (if String.eqb (theme st) "dark" then "light" else "dark") ∧
  storage (toggle st) !! "theme" = Some (theme (toggle st)) ∧
  darkClass (toggle st) = negb (String.eqb (theme st) "dark").
Proof.
  destruct (toggle_consistent st) as [Hls Hcls].
  split; [| split; [| split]]; try done.
  - apply toggle_theme_neq.
  - by rewrite toggle_unfold.
  - rewrite Hcls, toggle_unfold; simpl.
    by destruct (String.eqb (theme st) "dark").
Qed.

(** After the first click the button is an involution, whatever the theme
    the page started from: a third click gives the state of the first. *)
Theorem toggle_settles_after_first_click (st : State) :
  toggle (toggle (toggle st)) = toggle st.
Proof.
  apply toggle_twice_consistent;
    [apply toggle_consistent | apply toggle_light_or_dark].
Qed.

Lemma effect_other_keys st (k : string) :
  k ≠ "theme" → storage (useTheme_effect st) !! k = storage st !! k.
Proof. intros Hk. simpl. by rewrite lookup_insert_ne. Qed.

(** The hook writes no entry of the store but ['theme']: every other key
    reads the same after the mount, after [setTheme] and after a click. *)
Theorem theme_writes_only_its_key (k : string) :
  k ≠ "theme" →
  (∀ ls prefersDark cls, storage (useTheme_mount ls prefersDark cls) !! k = ls !! k) ∧
  (∀ next st, storage (setTheme next st) !! k = storage st !! k) ∧
  (∀ st, storage (toggle st) !! k = storage st !! k).
Proof.
  intros Hk. split; [| split].
  - intros ls pd cls. unfold useTheme_mount. by rewrite effect_other_keys.
  - intros next st. unfold setTheme.
    destruct (String.eqb next (theme st)); [done |].
    by rewrite effect_other_keys.
  - intros st. rewrite toggle_unfold. by rewrite effect_other_keys.
Qed.

Lemma theme_writes_only_its_key_witness :
  storage (toggle (useTheme_mount {[ "token" := "abc" ]} true false))
    !! "token" = Some "abc".
Proof.
  destruct (theme_writes_only_its_key "token") as (_ & _ & Htoggle);
    [discriminate |].
  rewrite Htoggle. reflexivity.
Defined.

Lemma useTheme_init_nonempty ls prefersDark :
  useTheme_init ls prefersDark ≠ "".
Proof.
  unfold useTheme_init. destruct (ls !! "theme") as [s |].
  - destruct (JS.truthy s) eqn:Hs; [by apply truthy_spec |].
    by destruct prefersDark.
  - by destruct prefersDark.
Qed.

Lemma in_use_facts st :
  App.in_use st → consistent st ∧ theme st ≠ "".
Proof.
  induction 1 as [ls pd cls | st _ _].
  - split; [apply effect_consistent | apply useTheme_init_nonempty].
  - split; [apply toggle_consistent |].
    by destruct (toggle_light_or_dark st) as [-> | ->].
Qed.

Lemma mount_on_consistent st prefersDark cls :
  consistent st → theme st ≠ "" →
  useTheme_mount (storage st) prefersDark cls = st.
Proof.
  intros [Hls Hcls] Hne. destruct st as [th ls c]. simpl in *.
  unfold useTheme_mount, useTheme_init. rewrite Hls.
  apply truthy_spec in Hne. rewrite Hne.
  unfold useTheme_effect; simpl. f_equal; [by apply insert_id | done].
Qed.

Lemma in_use_init st prefersDark :
  App.in_use st → useTheme_init (storage st) prefersDark = theme st.
Proof.
  intros Hst. destruct (in_use_facts st Hst) as [Hcons Hne].
  by rewrite <- (mount_on_consistent st prefersDark false Hcons Hne) at 2.
Qed.

(** Reloading the page gives the state back: mounting the hook on the
    store a session left behind restores the theme, the store and the
    class of the document, whatever the ambient preference and the class
    list are at that time. *)
Theorem reload_restores_theme (st : State) (prefersDark cls : bool) :
  App.in_use st →
  useTheme_init (storage st) prefersDark = theme st ∧
  useTheme_mount (storage st) prefersDark cls = st.
Proof.
  intros Hst. split; [by apply in_use_init |].
  destruct (in_use_facts st Hst) as [Hcons Hne].
  by apply mount_on_consistent.
Qed.

Lemma reload_restores_theme_witness :
  useTheme_init
    (storage (toggle (useTheme_mount ∅ false false))) false = "dark".
Proof.
  destruct (reload_restores_theme
              (toggle (useTheme_mount ∅ false false)) false true) as [Hinit _].
  - apply App.use_toggle, App.use_mount.
  - rewrite Hinit. reflexivity.
Defined.

(** The colour effect of [Layout] throws on the first render exactly when
    the store holds, under ['theme'], a non-empty string that is neither
    ['light'] nor ['dark'] nor a property name every object inherits;
    with no entry, an empty entry, ['light'] or ['dark'] the page mounts. *)
Theorem mount_fails_on_unknown_theme
    (ls : gmap string string) (prefersDark cls : bool) :
  App.mount ls prefersDark cls = None ↔
  ∃ s, ls !! "theme" = Some s ∧ s ≠ "" ∧ s ≠ "light" ∧ s ≠ "dark" ∧
       inherited s = false.
Proof.
  unfold App.mount, Layout_effect, THEME_COLORS, useTheme_init.
  destruct (ls !! "theme") as [s |] eqn:Hls.
  - destruct (JS.truthy s) eqn:Hs.
    + apply truthy_spec in Hs.
      destruct (String.eqb_spec s "light") as [-> | Hl].
      { split; [done | by intros (? & [= <-] & _ & Hne & _)]. }
      destruct (String.eqb_spec s "dark") as [-> | Hd].
      { split; [done | by intros (? & [= <-] & _ & _ & Hne & _)]. }
      destruct (inherited s) eqn:Hi.
      * split; [done | intros (? & [= <-] & _ & _ & _ & Hne); congruence].
      * split; [intros _; by exists s | done].
    + apply negb_false_iff, String.eqb_eq in Hs. subst s.
      split; [by destruct prefersDark | by intros (? & [= <-] & Hne & _)].
  - split; [by destruct prefersDark | intros (? & [=] & _)].
Qed.

End ThemeClicks.

(** ** The cells of [Layout] and [Navbar] *)

Section PageCells.

Import App.

Lemma mount_navbar_hook ls prefersDark cls st0 :
  mount ls prefersDark cls = Some st0 →
  navbar_hook st0 = Theme.useTheme_mount ls prefersDark cls ∧
  layout st0 = Theme.useTheme_init ls prefersDark ∧
  navbar st0 = Theme.useTheme_init ls prefersDark ∧
  Theme.Layout_effect (layout st0) = Some (style st0).
Proof.
  unfold mount. intros Hm.
  destruct (Theme.Layout_effect (Theme.useTheme_init ls prefersDark))
    as [vars |] eqn:Hvars; [| discriminate].
  injection Hm as <-. repeat split; try done.
  unfold navbar_hook, Theme.useTheme_mount, Theme.useTheme_effect; simpl.
  f_equal. apply insert_insert_eq.
Qed.

Lemma click_navbar_hook st : navbar_hook (click st) = Theme.toggle (navbar_hook st).
Proof. unfold click, navbar_hook at 1; simpl. by destruct (Theme.toggle _). Qed.

Lemma click_store st : storage (click st) !! "theme" = Some (navbar (click st)).
Proof. exact (proj1 (toggle_consistent (navbar_hook st))). Qed.

Lemma click_navbar_neq st : navbar (click st) ≠ navbar st.
Proof. exact (toggle_theme_neq (navbar_hook st)). Qed.

Lemma clicks_frame n st :
  layout (Nat.iter n click st) = layout st ∧
  style (Nat.iter n click st) = style st.
Proof.
  induction n as [| n [IHl IHs]]; [done |]. simpl. by rewrite <- IHl, <- IHs.
Qed.

Lemma clicks_in_use n ls prefersDark cls st0 :
  mount ls prefersDark cls = Some st0 →
  in_use (navbar_hook (Nat.iter n click st0)).
Proof.
  intros Hm. induction n as [| n IH]; simpl.
  - destruct (mount_navbar_hook _ _ _ _ Hm) as [-> _]. constructor.
  - rewrite click_navbar_hook. by constructor.
Qed.

(** The theme cell of [Layout] and the style properties [--bg] and
    [--text] never follow the toggle button: after any number of clicks
    they are those of the first render, while the store holds the theme of
    [Navbar]; after one click the store and the cell of [Layout] disagree.
    Only a reload brings the cell of [Layout] to the persisted theme. *)
Theorem layout_cell_ignores_clicks
    (ls : gmap string string) (prefersDark cls : bool) (st0 : State) (n : nat) :
  mount ls prefersDark cls = Some st0 →
  layout (Nat.iter n click st0) = Theme.useTheme_init ls prefersDark ∧
  Theme.Layout_effect (Theme.useTheme_init ls prefersDark)
    = Some (style (Nat.iter n click st0)) ∧
  storage (Nat.iter n click st0) !! "theme"
    = Some (navbar (Nat.iter n click st0)) ∧
  storage (click st0) !! "theme" ≠ Some (layout (click st0)) ∧
  (∀ prefersDark' cls' st',
     mount (storage (Nat.iter n click st0)) prefersDark' cls' = Some st' →
     layout st' = navbar (Nat.iter n click st0)).
Proof.
  intros Hm.
  destruct (mount_navbar_hook _ _ _ _ Hm) as (Hhook & Hlay & Hnav & Hstyle).
  destruct (clicks_frame n st0) as [Hl Hs].
  pose proof (clicks_in_use n _ _ _ _ Hm) as Huse.
  destruct (in_use_facts _ Huse) as [[Hls _] Hne]. simpl in Hls, Hne.
  split; [by rewrite Hl |]. split; [by rewrite Hs, <- Hlay |].
  split; [exact Hls |]. split.
  - rewrite click_store. change (layout (click st0)) with (layout st0).
    rewrite Hlay, <- Hnav.
    pose proof (click_navbar_neq st0). congruence.
  - intros pd' cls' st' Hm'.
    destruct (mount_navbar_hook _ _ _ _ Hm') as (_ & -> & _).
    exact (in_use_init _ pd' Huse).
Qed.

Lemma layout_cell_ignores_clicks_witness :
  ∃ st0, mount ∅ false false = Some st0 ∧
         layout (Nat.iter 1 click st0) = "light" ∧
         storage (Nat.iter 1 click st0) !! "theme" = Some "dark" ∧
         Theme.Layout_effect "light" = Some (style (Nat.iter 1 click st0)).
Proof.
  eexists. split; [reflexivity |].
  lazymatch goal with
  | |- layout (Nat.iter 1 click ?s) = _ ∧ _ =>
      destruct (layout_cell_ignores_clicks ∅ false false s 1)
        as (Hl & Hs & Hls & _); [reflexivity |]
  end.
  split; [exact Hl |]. split; [rewrite Hls; reflexivity | exact Hs].
Defined.

End PageCells.

(** ** Scroll tracker: any run of events *)

Section ScrollRuns.

Import Scroll.

Lemma run_snoc st ys y : Nav.run st (ys ++ [y]) = onScroll y (Nav.run st ys).
Proof. unfold Nav.run. by rewrite fold_left_app. Qed.

Lemma last_cons_default (a : Q) (l : list Q) (d d' : Q) :
  List.last (a :: l) d = List.last (a :: l) d'.
Proof.
  revert a. induction l as [| b l IH]; intros a; [done |].
  change (List.last (b :: l) d = List.last (b :: l) d'). apply IH.
Qed.

Lemma run_last st ys : last (Nav.run st ys) = List.last ys (last st).
Proof.
  revert st. induction ys as [| y ys IH]; intros st; [done |].
  change (Nav.run st (y :: ys)) with (Nav.run (onScroll y st) ys).
  rewrite IH. destruct ys as [| q ys]; [reflexivity |].
  change (List.last (y :: q :: ys) (last st))
    with (List.last (q :: ys) (last st)).
  apply last_cons_default.
Qed.

(** Each reported direction depends only on the offset of its event and
    on the offset before it (the recorded one for the first event):
    ['down'] when the offset grew, ['up'] otherwise. There is one report
    per event. *)
Theorem track_pointwise (st : State) (ys : list Q) :
  length (track st ys) = length ys ∧
  ∀ i a b, (last st :: ys) !! i = Some a → ys !! i = Some b →
           track st ys !! i = Some (if Qlt_le_dec a b then "down" else "up").
Proof.
  revert st. induction ys as [| y ys IH]; intros st.
  - split; [done | by intros i a b _ ?].
  - destruct (IH (onScroll y st)) as [IHlen IHat]. split.
    + simpl. by rewrite IHlen.
    + intros [| i] a b Ha Hb; simpl in *.
      * by injection Ha as <-; injection Hb as <-.
      * by apply IHat.
Qed.

Lemma track_pointwise_witness :
  track (useScrollDirection_init 0%Q) [4%Q; 2%Q; 7%Q] !! 2%nat = Some "down".
Proof.
  destruct (track_pointwise (useScrollDirection_init 0%Q) [4%Q; 2%Q; 7%Q])
    as [_ Hat].
  apply (Hat 2%nat 2%Q 7%Q); reflexivity.
Defined.

(** After any run of scroll events the tracker holds the offset of the
    last event, and its direction, hence whether the navigation bar is
    hidden, is decided by the last two offsets alone: the bar is hidden
    exactly when the last event moved strictly down, and it is visible
    before any event. *)
Theorem navbar_follows_last_move (st : State) (ys : list Q) (y : Q) :
  last (Nav.run st ys) = List.last ys (last st) ∧
  Nav.animate (dir (useScrollDirection_init (last st))) = "visible" ∧
  (Nav.animate (dir (Nav.run st (ys ++ [y]))) = "hidden"
     ↔ (List.last ys (last st) < y)%Q) ∧
  (Nav.animate (dir (Nav.run st (ys ++ [y]))) = "visible"
     ↔ (y <= List.last ys (last st))%Q).
Proof.
  split; [apply run_last |]. split; [reflexivity |].
  rewrite run_snoc. rewrite <- run_last.
  destruct (Qlt_le_dec (last (Nav.run st ys)) y) as [Hlt | Hle].
  - rewrite (onScroll_down _ _ Hlt). split; split; try done.
    intros Hle. exfalso. exact (Qlt_not_le _ _ Hlt Hle).
  - rewrite (onScroll_up _ _ Hle). split; split; try done.
    intros Hlt. exfalso. exact (Qlt_not_le _ _ Hlt Hle).
Qed.

Lemma navbar_follows_last_move_witness :
  Nav.animate (dir (Nav.run (useScrollDirection_init 0%Q)
                      ([10%Q; 3%Q] ++ [5%Q]))) = "hidden".
Proof.
  destruct (navbar_follows_last_move
              (useScrollDirection_init 0%Q) [10%Q; 3%Q] 5%Q)
    as (_ & _ & Hhidden & _).
  apply Hhidden. reflexivity.
Defined.

End ScrollRuns.

(** ** Splitting and trimming: composition and round trips *)

Section SplitTrimLaws.

Import Str.

Lemma count_app c (a b : string) : count c (a +:+ b) = count c a + count c b.
Proof.
  induction a as [| d a IH]; [reflexivity |].
  rewrite append_cons. cbn [count]. rewrite IH. lia.
Qed.

Lemma blank_app (a b : string) : blank (a +:+ b) = blank a && blank b.
Proof.
  induction a as [| d a IH]; [reflexivity |].
  rewrite append_cons. cbn [blank]. rewrite IH. by rewrite andb_assoc.
Qed.

Lemma split_app_sep sep (a b : string) :
  split sep (a +:+ String sep b) = split sep a ++ split sep b.
Proof.
  induction a as [| c a IH].
  - rewrite append_nil_l. cbn [split]. by rewrite Ascii.eqb_refl.
  - rewrite append_cons. cbn [split]. rewrite IH.
    pose proof (split_not_nil sep a) as Hne.
    destruct (Ascii.eqb c sep); [done |].
    by destruct (split sep a).
Qed.

Lemma split_sep_free_id sep (p : string) :
  count sep p = 0 → split sep p = [p].
Proof.
  induction p as [| c p IH]; [done |]. cbn [count split].
  destruct (Ascii.eqb c sep); [done |]. intros Hp. by rewrite IH.
Qed.

Lemma split_join sep (l : list string) :
  l ≠ [] → Forall (λ p, count sep p = 0) l →
  split sep (join (String sep "") l) = l.
Proof.
  induction l as [| p l IH]; [done |]. intros _ Hall.
  inversion Hall as [| ? ? Hp Hl]; subst.
  destruct l as [| q l]; [by apply split_sep_free_id |].
  rewrite join_cons, append_cons, append_nil_l, split_app_sep.
  rewrite (split_sep_free_id sep p Hp), IH; done.
Qed.

Lemma trimStart_id s :
  (∀ c, first s = Some c → isWhiteSpace c = false) → trimStart s = s.
Proof.
  destruct s as [| c s]; [done |]. intros Hc. cbn [trimStart].
  by rewrite (Hc c).
Qed.

Lemma trimEnd_id s :
  (∀ c, final s = Some c → isWhiteSpace c = false) → trimEnd s = s.
Proof.
  induction s as [| c s IH]; [done |]. intros Hc. cbn [trimEnd].
  destruct s as [| d s].
  - cbn [trimEnd]. by rewrite (Hc c).
  - rewrite IH; [done |]. intros e He. by apply Hc.
Qed.

Lemma trim_id s : trimmed s → trim s = s.
Proof.
  intros [Hfirst Hfinal]. unfold trim.
  rewrite trimStart_id by done. by apply trimEnd_id.
Qed.

Lemma trim_trimmed s : trimmed (trim s).
Proof. by destruct (trim_spec s) as (l & r & _ & _ & _ & Ht). Qed.

Lemma trimStart_blank (w s : string) :
  blank w = true → trimStart (w +:+ s) = trimStart s.
Proof.
  induction w as [| c w IH]; [done |]. cbn [blank].
  intros [Hc Hw]%andb_true_iff. rewrite append_cons. cbn [trimStart].
  rewrite Hc. by apply IH.
Qed.

Lemma trim_blank_prefix (w s : string) :
  blank w = true → trim (w +:+ s) = trim s.
Proof. intros Hw. unfold trim. by rewrite trimStart_blank. Qed.

Lemma blank_trim s : blank s = true → trim s = "".
Proof.
  intros Hs. unfold trim.
  assert (trimStart s = "") as ->; [| done].
  induction s as [| c s IH]; [done |]. cbn [blank] in Hs.
  apply andb_true_iff in Hs as [Hc Hs]. cbn [trimStart]. rewrite Hc. auto.
Qed.

Lemma trim_empty_blank s : trim s = "" → blank s = true.
Proof.
  intros Ht. destruct (trim_spec s) as (l & r & Hs & Hl & Hr & _).
  rewrite Hs, Ht, append_nil_l, blank_app, Hl, Hr. done.
Qed.

Lemma trim_count c s : count c (trim s) ≤ count c s.
Proof.
  destruct (trim_spec s) as (l & r & Hs & _).
  rewrite Hs at 2. rewrite !count_app. lia.
Qed.

Lemma blank_no_comma w : blank w = true → count "," w = 0.
Proof.
  induction w as [| c w IH]; [done |]. cbn [blank count].
  intros [Hc Hw]%andb_true_iff. rewrite (IH Hw).
  destruct (Ascii.eqb_spec c ","); [by subst c | done].
Qed.

End SplitTrimLaws.

(** ** Tag lists: concatenation, round trip, shape *)

Section TagLaws.

Import Str Studio.

Lemma append_assoc (a b c : string) : (a +:+ b) +:+ c = a +:+ (b +:+ c).
Proof.
  induction a as [| x a IH]; [reflexivity |].
  by rewrite !append_cons, IH.
Qed.

Lemma tags_app (a b : string) : tags (a +:+ String "," b) = tags a ++ tags b.
Proof. unfold tags. by rewrite split_app_sep, map_app. Qed.

Lemma tags_single (w p : string) :
  blank w = true → count "," p = 0 → trimmed p → tags (w +:+ p) = [p].
Proof.
  intros Hw Hp Ht. unfold tags.
  rewrite split_sep_free_id
    by (rewrite count_app, Hp, (blank_no_comma w Hw); done).
  simpl. by rewrite trim_blank_prefix, trim_id.
Qed.

Lemma tags_join_spaced (l : list string) :
  l ≠ [] → Forall (λ t, count "," t = 0 ∧ trimmed t) l →
  ∀ w, blank w = true → tags (w +:+ join ", " l) = l.
Proof.
  induction l as [| p l IH]; [done |]. intros _ Hall w Hw.
  inversion Hall as [| ? ? [Hp Ht] Hl]; subst.
  destruct l as [| q l]; [by apply tags_single |].
  rewrite join_cons.
  change (", " +:+ join ", " (q :: l))
    with (String "," (" " +:+ join ", " (q :: l))).
  rewrite <- append_assoc, tags_app, tags_single by done.
  rewrite IH; done.
Qed.

(** The tag list of two fields joined by a comma is the concatenation of
    their tag lists; in particular a trailing comma adds an empty tag at
    the end and a leading comma one at the front. *)
Theorem tags_of_concatenation (a b : string) :
  tags (a +:+ "," +:+ b) = tags a ++ tags b ∧
  tags (a +:+ ",") = tags a ++ [""] ∧
  tags ("," +:+ b) = "" :: tags b.
Proof.
  split; [| split].
  - change ("," +:+ b) with (String "," b). apply tags_app.
  - change "," with (String "," ""). by rewrite tags_app.
  - change ("," +:+ b) with ("" +:+ String "," b). by rewrite tags_app.
Qed.

(** Round trip: a non-empty list of tags that hold no comma and no
    surrounding white space is read back unchanged from the field that
    lists them separated by commas, with or without a space after each
    comma. *)
Theorem tags_roundtrip (l : list string) :
  l ≠ [] →
  Forall (λ t, count "," t = 0 ∧ trimmed t) l →
  tags (join "," l) = l ∧ tags (join ", " l) = l.
Proof.
  intros Hne Hall. split.
  - unfold tags. rewrite split_join; [| done |].
    + clear Hne. induction Hall as [| t l [_ Ht] _ IH]; [done |].
      simpl. by rewrite trim_id, IH.
    + eapply Forall_impl; [exact Hall | by intros t [? _]].
  - rewrite <- (append_nil_l (join ", " l)). by apply tags_join_spaced.
Qed.

Lemma tags_roundtrip_witness :
  tags (join ", " ["react"; "ts"; "node"]) = ["react"; "ts"; "node"].
Proof.
  apply (tags_roundtrip ["react"; "ts"; "node"]); [discriminate |].
  repeat constructor; by intros c [= <-].
Defined.

(** [trim] is idempotent; it leaves a string unchanged exactly when the
    string has no white space at either end; and it gives the empty string
    exactly when the string holds nothing but white space. *)
Theorem trim_laws (s : string) :
  trim (trim s) = trim s ∧
  (trim s = s ↔ trimmed s) ∧
  (trim s = "" ↔ blank s = true).
Proof.
  split; [apply trim_id, trim_trimmed |]. split; split.
  - intros <-. apply trim_trimmed.
  - apply trim_id.
  - apply trim_empty_blank.
  - apply blank_trim.
Qed.

Lemma tags_not_nil raw : tags raw ≠ [].
Proof.
  unfold tags. pose proof (split_not_nil "," raw).
  by destruct (split "," raw).
Qed.

Lemma tags_Forall_clean raw :
  Forall (λ t, count "," t = 0 ∧ trimmed t) (tags raw).
Proof.
  unfold tags. apply Forall_map.
  eapply Forall_impl; [apply split_sep_free |].
  intros p Hp; simpl in *. split; [| apply trim_trimmed].
  pose proof (trim_count "," p) as Hle. rewrite Hp in Hle.
  by apply Nat.le_0_r.
Qed.

(** Whatever the tags field holds, the list that [create] sends as [tech]
    for a project draft, and as [tags] for a blog draft, is the tag list
    of the field; it is not empty, and each of its tags holds no comma and
    neither starts nor ends with white space. *)
Theorem tags_are_clean (base : string) (st : State) :
  (type (form st) = "project" →
     body (create base st) =
       JObj [("title", JStr (title (form st))); ("slug", JStr (slug (form st)));
             ("summary", JStr (summary (form st)));
             ("tech", JArr (map JStr (tags (tech (form st)))))]) ∧
  (type (form st) = "blog" →
     body (create base st) =
       JObj [("title", JStr (title (form st))); ("slug", JStr (slug (form st)));
             ("excerpt", JStr (summary (form st)));
             ("tags", JArr (map JStr (tags (tech (form st)))));
             ("read_time", JNum 4)]) ∧
  tags (tech (form st)) ≠ [] ∧
  Forall (λ t, count "," t = 0 ∧ trimmed t) (tags (tech (form st))).
Proof.
  split; [apply create_body_project |].
  split; [apply create_body_blog |].
  split; [apply tags_not_nil | apply tags_Forall_clean].
Qed.

Lemma tags_are_clean_witness :
  body (create "" (mkState (Some "abc") ""
                     (mkForm "project" "Foo" "foo" "bar" " a ,,b ") ∅))
    = JObj [("title", JStr "Foo"); ("slug", JStr "foo");
            ("summary", JStr "bar");
            ("tech", JArr [JStr "a"; JStr ""; JStr "b"])] ∧
  Forall (λ t, count "," t = 0 ∧ trimmed t) ["a"; ""; "b"].
Proof.
  destruct (tags_are_clean "" (mkState (Some "abc") ""
              (mkForm "project" "Foo" "foo" "bar" " a ,,b ") ∅))
    as (Hproject & _ & _ & Hclean).
  split; [rewrite Hproject; reflexivity | exact Hclean].
Defined.

End TagLaws.

(** ** Project page: the slug of a path *)

Section ProjectSlug.

Import Str Detail.

Lemma last_sep_decomp sep (p : string) :
  count sep p = 0 ∨ ∃ d s, p = d +:+ String sep s ∧ count sep s = 0.
Proof.
  induction p as [| c p [Hfree | (d & s & -> & Hs)]].
  - by left.
  - cbn [count]. destruct (Ascii.eqb_spec c sep) as [-> | Hc].
    + right. exists "", p. by rewrite append_nil_l.
    + left. by rewrite Hfree.
  - right. exists (String c d), s. by rewrite append_cons.
Qed.

Lemma final_snoc (d : string) c : final (d +:+ String c "") = Some c.
Proof.
  induction d as [| x d IH]; [done |].
  rewrite append_cons. cbn [final]. rewrite IH.
  destruct d; by rewrite ?append_nil_l, ?append_cons.
Qed.

Lemma slug_after_sep (d s : string) :
  count "/" s = 0 → slug (d +:+ String "/" s) = Some s.
Proof.
  intros Hs. unfold slug.
  rewrite split_app_sep, (split_sep_free_id "/" s Hs). apply last_snoc.
Qed.

(** The slug is always defined: it is the part of the path after its last
    slash (the whole path when there is none), it holds no slash, and the
    path is the slug behind a prefix that is empty or ends with a slash. *)
Theorem slug_is_last_segment (pathname : string) :
  ∃ s prefix, slug pathname = Some s ∧ count "/" s = 0 ∧
              pathname = prefix +:+ s ∧
              (prefix = "" ∨ final prefix = Some "/"%char).
Proof.
  destruct (last_sep_decomp "/" pathname) as [Hfree | (d & s & -> & Hs)].
  - exists pathname, "". unfold slug. rewrite split_sep_free_id by done.
    repeat split; auto.
  - exists s, (d +:+ "/"). rewrite slug_after_sep by done.
    repeat split; [done | | right; apply final_snoc].
    by rewrite append_assoc.
Qed.

(** Round trip with the route [/projects/:slug]: for a slug without a
    slash, the page opened at a directory, a slash and the slug recovers
    the slug and fetches [/projects/slug/] followed by it. A path ending
    with a slash has the empty slug. *)
Theorem slug_roundtrip (base dir s : string) :
  count "/" s = 0 →
  slug (dir +:+ "/" +:+ s) = Some s ∧
  project_url base (dir +:+ "/" +:+ s) = base +:+ "/projects/slug/" +:+ s ∧
  slug (dir +:+ "/") = Some "".
Proof.
  intros Hs.
  change ("/" +:+ s) with (String "/" s).
  unfold project_url. rewrite (slug_after_sep dir s Hs).
  repeat split. change "/" with (String "/" ""). by apply slug_after_sep.
Qed.

Lemma slug_roundtrip_witness :
  slug ("/projects" +:+ "/" +:+ "realtime-collab") = Some "realtime-collab" ∧
  project_url "" ("/projects" +:+ "/" +:+ "realtime-collab")
    = "/projects/slug/realtime-collab".
Proof.
  destruct (slug_roundtrip "" "/projects" "realtime-collab")
    as (Hslug & Hurl & _); [reflexivity |].
  split; [exact Hslug | exact Hurl].
Defined.

End ProjectSlug.

(** ** Studio: what [login] keeps, and what later requests carry *)

Section StudioSession.

Import Studio.

(** [login] changes neither the password field nor the draft, and writes
    no entry of the store but ['token'], whatever the outcome of the
    request. *)
Theorem login_keeps_the_rest (o : Outcome) (st : State) (k : string) :
  k ≠ "token" →
  password (login o st) = password st ∧
  form (login o st) = form st ∧
  storage (login o st) !! k = storage st !! k.
Proof.
  intros Hk. destruct o as [| [|] [data |]]; try done.
  rewrite login_success; simpl. by rewrite lookup_insert_ne.
Qed.

Lemma login_keeps_the_rest_witness :
  storage (login (Response true (Some (mkBody (Some "abc"))))
             (Studio_init {[ "theme" := "dark" ]})) !! "theme" = Some "dark".
Proof.
  destruct (login_keeps_the_rest
              (Response true (Some (mkBody (Some "abc"))))
              (Studio_init {[ "theme" := "dark" ]}) "theme")
    as (_ & _ & Hls); [discriminate |].
  rewrite Hls. reflexivity.
Defined.

(** After a login that stored the token [t], [create] sends the draft as
    it would have before, to the same address, with the header
    [Authorization: Bearer t]. *)
Theorem create_after_login (base t : string) (st : State) :
  headers (create base (login (Response true (Some (mkBody (Some t)))) st))
    = [("Content-Type", "application/json"); ("Authorization", "Bearer " +:+ t)] ∧
  url (create base (login (Response true (Some (mkBody (Some t)))) st))
    = url (create base st) ∧
  body (create base (login (Response true (Some (mkBody (Some t)))) st))
    = body (create base st).
Proof. by rewrite login_success. Qed.

(** The token outlives the page: opening the studio on the store left by a
    login that stored the token [t] starts with [t] in the state cell, so the
    page is authenticated exactly when [t] is not empty. *)
Theorem token_survives_reload (t : string) (st : State) :
  token (Studio_init
           (storage (login (Response true (Some (mkBody (Some t)))) st)))
    = Some t ∧
  authenticated
    (Studio_init
       (storage (login (Response true (Some (mkBody (Some t)))) st)))
    = JS.truthy t.
Proof.
  rewrite login_success; simpl. unfold Studio_init, authenticated; simpl.
  rewrite lookup_insert_eq.
  destruct (JS.truthy t) eqn:Ht; [done |].
  apply negb_false_iff, String.eqb_eq in Ht. by subst t.
Qed.

(** A success response whose body lacks [access_token]: the state cell
    holds [undefined] and the login form stays, but the store receives the
    text [undefined] under ['token']; on the next visit the page starts
    authenticated with that text as its token and sends it as bearer. *)
Theorem login_without_token_field (base : string) (st : State) :
  authenticated (login (Response true (Some (mkBody None))) st) = false ∧
  storage (login (Response true (Some (mkBody None))) st) !! "token"
    = Some "undefined" ∧
  authenticated
    (Studio_init (storage (login (Response true (Some (mkBody None))) st)))
    = true ∧
  headers
    (create base
       (Studio_init (storage (login (Response true (Some (mkBody None))) st))))
    = [("Content-Type", "application/json");
       ("Authorization", "Bearer undefined")].
Proof.
  rewrite login_success; simpl.
  unfold Studio_init, authenticated, create; simpl.
  by rewrite lookup_insert_eq.
Qed.


(** A later successful login replaces whatever an earlier attempt left:
    the state after it is the one it would give on its own, so a stale
    token never survives in the cell or in the store. *)
Theorem login_last_wins (o : Outcome) (data : Body) (st : State) :
  login (Response true (Some data)) (login o st)
    = login (Response true (Some data)) st.
Proof.
  destruct o as [| [|] [data0 |]]; try done.
  rewrite !login_success; simpl. by rewrite insert_insert_eq.
Qed.

End StudioSession.
